(** * Aave wallet credit scoring: the pipeline of [src/scorer.py]

    A shallow embedding of [CreditScorer]: [load_and_parse_data] (JSON records
    to a transaction table), [engineer_features] (per-wallet aggregation) and
    [calculate_scores] (linear heuristic, then min-max rescaling and an integer
    cast).

    Numbers.  The program computes with binary64 floats.  The main development
    reads every float as the rational it denotes and every operation as the
    exact one (decimal products and [float()] included); a quotient by zero,
    which numpy answers with an infinity or a NaN instead of raising, is
    [None].  Module [Binary64] repeats the scoring arithmetic on the kernel's
    IEEE 754 binary64 numbers, operation for operation, so that concrete
    populations can be evaluated with the program's own rounding. *)

From Stdlib Require Import ZArith QArith Qround Qminmax.
From Stdlib Require Import List String Ascii Bool Lia Lqa.
From Stdlib Require Import Permutation Sorted.
From Stdlib Require Import Floats.
Import ListNotations.

Local Open Scope string_scope.
Local Open Scope Z_scope.

(** ** Python values and exceptions *)

(** The exceptions the modelled statements can raise. *)
Inductive exn : Type :=
| AttributeError
| TypeError
| KeyError
| ValueError
| InvalidOperation
| FileNotFoundError.

(** A computation that returns a value or raises. *)
Inductive result (A : Type) : Type :=
| Ok (a : A)
| Raise (e : exn).

Arguments Ok {A} a.
Arguments Raise {A} e.

Definition bind {A B : Type} (m : result A) (k : A -> result B) : result B :=
  match m with
  | Ok a => k a
  | Raise e => Raise e
  end.

Notation "x <- m ;; k" := (bind m (fun x => k))
  (at level 61, m at next level, right associativity).

(** What [json.load] returns.  A number is the rational it denotes (an [int]
    or a finite [float]); an object is its list of bindings, which [json.load]
    leaves without repeated keys. *)
#[warning="-register-all"]
Inductive json : Type :=
| JNull
| JBool (b : bool)
| JNum (q : Q)
| JStr (s : string)
| JList (l : list json)
| JDict (d : list (string * json)).

Fixpoint lookup (k : string) (d : list (string * json)) : option json :=
  match d with
  | [] => None
  | (k', v) :: d' => if String.eqb k k' then Some v else lookup k d'
  end.

(** [obj.get(key, default)]: only a dict has the method. *)
Definition get (obj : json) (key : string) (default : json) : result json :=
  match obj with
  | JDict d => Ok (match lookup key d with Some v => v | None => default end)
  | _ => Raise AttributeError
  end.

(** [d[key]] on a dict. *)
Definition getitem (d : list (string * json)) (key : string) : result json :=
  match lookup key d with
  | Some v => Ok v
  | None => Raise KeyError
  end.

(** [for record in raw_data]: a list yields its items, a dict its keys, a
    string its characters; nothing else is iterable. *)
Definition iter (raw_data : json) : result (list json) :=
  match raw_data with
  | JList l => Ok l
  | JDict d => Ok (map (fun kv => JStr (fst kv)) d)
  | JStr s => Ok (map (fun c => JStr (String c EmptyString)) (list_ascii_of_string s))
  | _ => Raise TypeError
  end.

(** [str.lower] on the ASCII letters. *)
Definition lower_ascii (c : ascii) : ascii :=
  let n := nat_of_ascii c in
  if (65 <=? n)%nat && (n <=? 90)%nat then ascii_of_nat (n + 32) else c.

Fixpoint lower (s : string) : string :=
  match s with
  | EmptyString => EmptyString
  | String c s' => String (lower_ascii c) (lower s')
  end.

(** [x.lower()]: only a string has the method. *)
Definition call_lower (x : json) : result string :=
  match x with
  | JStr s => Ok (lower s)
  | _ => Raise AttributeError
  end.

(** ** [decimal.Decimal] *)

Definition is_digit (c : ascii) : bool :=
  let n := nat_of_ascii c in (48 <=? n)%nat && (n <=? 57)%nat.

Definition digit_val (c : ascii) : Z := Z.of_nat (nat_of_ascii c) - 48.

Definition is_space (c : ascii) : bool :=
  let n := nat_of_ascii c in
  (n =? 32)%nat || ((9 <=? n)%nat && (n <=? 13)%nat).

Fixpoint lstrip (l : list ascii) : list ascii :=
  match l with
  | c :: l' => if is_space c then lstrip l' else l
  | [] => []
  end.

Definition strip (l : list ascii) : list ascii :=
  rev (lstrip (rev (lstrip l))).

Definition is_underscore (c : ascii) : bool := (nat_of_ascii c =? 95)%nat.

(** Reads a run of digits: the number read so far, how many digits were read,
    and what follows them. *)
Fixpoint read_digits (acc : Z) (n : Z) (l : list ascii) : Z * Z * list ascii :=
  match l with
  | c :: l' => if is_digit c then read_digits (10 * acc + digit_val c) (n + 1) l'
               else (acc, n, l)
  | [] => (acc, n, [])
  end.

Definition read_sign (l : list ascii) : bool * list ascii :=
  match l with
  | "-"%char :: l' => (true, l')
  | "+"%char :: l' => (false, l')
  | _ => (false, l)
  end.

(** [exponent-part ::= ('e' | 'E') [sign] digits], up to the end of the
    string; an absent exponent is [0]. *)
Definition read_exponent (l : list ascii) : option Z :=
  match l with
  | [] => Some 0
  | c :: l' =>
      if (nat_of_ascii c =? 101)%nat || (nat_of_ascii c =? 69)%nat then
        let '(neg, l1) := read_sign l' in
        match read_digits 0 0 l1 with
        | (e, n, []) => if 0 <? n then Some (if neg then - e else e) else None
        | _ => None
        end
      else None
  end.

(** [coefficient * 10 ^ exponent] as a rational. *)
Definition scale10 (coefficient exponent : Z) : Q :=
  if 0 <=? exponent
  then inject_Z (coefficient * 10 ^ exponent)
  else Qmake coefficient (Z.to_pos (10 ^ (- exponent))).

(** The finite numeric strings of the decimal module:
    [[sign] (digits ['.' [digits]] | '.' digits) [exponent-part]], after the
    surrounding whitespace and every underscore are removed.  [None] is
    [InvalidOperation].  The literals [Infinity] and [NaN], which the module
    also accepts, denote no rational and are outside the modelled inputs. *)
Definition Decimal_of_str (s : string) : option Q :=
  let l := filter (fun c => negb (is_underscore c)) (strip (list_ascii_of_string s)) in
  let '(neg, l0) := read_sign l in
  let '(ip, ni, l1) := read_digits 0 0 l0 in
  let '(coefficient, nf, l2) :=
    match l1 with
    | "."%char :: l1' => read_digits ip 0 l1'
    | _ => (ip, 0, l1)
    end in
  if 0 <? ni + nf then
    match read_exponent l2 with
    | Some e => Some (scale10 (if neg then - coefficient else coefficient) (e - nf))
    | None => None
    end
  else None.

(** [Decimal(value)]: a string is parsed, a number or a bool is taken as it
    is, and [None], lists and dicts are refused.  (A list is accepted only
    with a tuple of digits inside, which JSON cannot express.) *)
Definition Decimal (value : json) : result Q :=
  match value with
  | JStr s => match Decimal_of_str s with
              | Some q => Ok q
              | None => Raise InvalidOperation
              end
  | JNum q => Ok q
  | JBool b => Ok (if b then 1%Q else 0%Q)
  | JNull => Raise TypeError
  | JList _ => Raise ValueError
  | JDict _ => Raise TypeError
  end.

(** ** The transaction table *)

(** A [datetime64] cell: nanoseconds since the epoch, or [NaT]. *)
Inductive datetime : Type :=
| NaT
| Timestamp (ns : Z).

(** One row of [self.df]. *)
Record NormalizedTransaction : Type := mkTx {
  userAddress : json;
  timestamp : datetime;
  action : string;
  amountUSD : Q
}.

(** Lines 36-41: amount and price as decimals, their product as a float; the
    bare [except] turns every exception of the three statements into [0.0]. *)
Definition amount_of (amount_str : json) : result Q :=
  match amount_str with
  | JNull => Ok 0%Q
  | _ => Decimal amount_str
  end.

Definition price_of (price_str : json) : result Q :=
  match price_str with
  | JDict d => inner <- getitem d "$numberDecimal" ;; Decimal inner
  | _ => Decimal price_str
  end.

Definition amount_usd_try (amount_str price_str : json) : result Q :=
  amount <- amount_of amount_str ;;
  price <- price_of price_str ;;
  Ok (amount * price)%Q.

Definition amount_usd (amount_str price_str : json) : Q :=
  match amount_usd_try amount_str price_str with
  | Ok v => v
  | Raise _ => 0%Q
  end.

(** What [open] and [json.load] give the loop: no file, a file that is not
    JSON, or the decoded value. *)
Inductive input_file : Type :=
| Missing
| Corrupt
| Content (raw_data : json).

Section Parser.

(** [pd.to_datetime(x, unit='s')] on one JSON value: pandas decides which
    values convert and which raise. *)
Variable to_datetime : json -> result datetime.

(** The body of the [for] loop, lines 32-48. *)
Definition parse_record (record : json) : result NormalizedTransaction :=
  action_data <- get record "actionData" (JDict []) ;;
  amount_str <- get action_data "amount" JNull ;;
  price_str <- get action_data "assetPriceUSD" JNull ;;
  let amount_usd := amount_usd amount_str price_str in
  user <- get record "userWallet" JNull ;;
  ts <- get record "timestamp" JNull ;;
  t <- to_datetime ts ;;
  act <- get record "action" (JStr "unknown") ;;
  a <- call_lower act ;;
  Ok {| userAddress := user; timestamp := t; action := a; amountUSD := amount_usd |}.

(** The loop: the first record that raises ends it. *)
Fixpoint parse_records (records : list json) : result (list NormalizedTransaction) :=
  match records with
  | [] => Ok []
  | record :: rest =>
      tx <- parse_record record ;;
      txs <- parse_records rest ;;
      Ok (tx :: txs)
  end.

(** [load_and_parse_data]: the flag it returns and [self.df] afterwards.
    Both handlers of the outer [try] return [False] and leave [self.df]
    as [__init__] set it, [None]. *)
Definition load_and_parse_data (f : input_file) : bool * option (list NormalizedTransaction) :=
  let attempt :=
    raw_data <- match f with
                | Missing => Raise FileNotFoundError
                | Corrupt => Raise ValueError
                | Content j => Ok j
                end ;;
    records <- iter raw_data ;;
    parse_records records in
  match attempt with
  | Ok df => (true, Some df)
  | Raise FileNotFoundError => (false, None)
  | Raise _ => (false, None)
  end.

End Parser.

(** The conversion on the values the data model names: [None] stays missing
    and an integer is a count of seconds.  Used to run the parser on concrete
    records. *)
Definition to_datetime_unix (x : json) : result datetime :=
  match x with
  | JNull => Ok NaT
  | JNum q => if (Zpos (Qden q) =? 1) then Ok (Timestamp (Qnum q * 1000000000))
              else Raise ValueError
  | _ => Raise ValueError
  end.

(** ** [engineer_features] *)

(** The key of a row for [groupby] and [pivot_table]: both drop the rows
    whose key is [None].  Wallet addresses are strings; a table with a key
    that is neither a string nor [None] is outside the model (see
    [key_modelled] and [engineer_features]). *)
Definition group_key (tx : NormalizedTransaction) : option string :=
  match userAddress tx with
  | JStr s => Some s
  | _ => None
  end.

Definition key_modelled (tx : NormalizedTransaction) : bool :=
  match userAddress tx with
  | JNull => true
  | JStr _ => true
  | _ => false
  end.

Definition has_key (w : string) (tx : NormalizedTransaction) : bool :=
  match group_key tx with
  | Some k => String.eqb k w
  | None => false
  end.

Fixpoint keys (df : list NormalizedTransaction) : list string :=
  match df with
  | [] => []
  | tx :: df' => match group_key tx with
                 | Some k => k :: keys df'
                 | None => keys df'
                 end
  end.

Fixpoint insert_sorted (k : string) (l : list string) : list string :=
  match l with
  | [] => [k]
  | k' :: l' => if String.leb k k' then k :: l else k' :: insert_sorted k l'
  end.

Definition sort_keys (l : list string) : list string :=
  fold_right insert_sorted [] l.

(** The index of the grouped frames: the distinct keys, sorted. *)
Definition wallet_index (df : list NormalizedTransaction) : list string :=
  sort_keys (nodup string_dec (keys df)).

Definition rows_of (df : list NormalizedTransaction) (w : string) : list NormalizedTransaction :=
  filter (has_key w) df.

(** ['min'] and ['max'] of a datetime column skip [NaT]. *)
Definition dt_min (a b : datetime) : datetime :=
  match a, b with
  | NaT, x => x
  | x, NaT => x
  | Timestamp x, Timestamp y => Timestamp (Z.min x y)
  end.

Definition dt_max (a b : datetime) : datetime :=
  match a, b with
  | NaT, x => x
  | x, NaT => x
  | Timestamp x, Timestamp y => Timestamp (Z.max x y)
  end.

Definition agg_min (col : list datetime) : datetime := fold_right dt_min NaT col.
Definition agg_max (col : list datetime) : datetime := fold_right dt_max NaT col.

Definition Qsum (l : list Q) : Q := fold_right Qplus 0%Q l.

(** The rows of wallet [w] with action [a]: one cell of the pivot. *)
Definition cell_rows (df : list NormalizedTransaction) (w a : string) : list NormalizedTransaction :=
  filter (fun tx => String.eqb (action tx) a) (rows_of df w).

(** The action labels of the rows that have a key: one ['sum'] and one ['count'] column
    each. *)
Fixpoint actions (df : list NormalizedTransaction) : list string :=
  match df with
  | [] => []
  | tx :: df' => match group_key tx with
                 | Some _ => action tx :: actions df'
                 | None => actions df'
                 end
  end.

Definition pivot_columns (df : list NormalizedTransaction) : list string :=
  sort_keys (nodup string_dec (actions df)).

(** Lines 67-75 for one wallet: the row of [action_features] under the
    flattened names ['sum_<action>'] and ['count_<action>'].  An empty cell
    holds [fill_value], which is what its sum and its count are. *)
Definition action_features (df : list NormalizedTransaction) (w : string) : list (string * Q) :=
  List.app
    (map (fun a => ("sum_" ++ a, Qsum (map amountUSD (cell_rows df w a)))) (pivot_columns df))
    (map (fun a => ("count_" ++ a, inject_Z (Z.of_nat (List.length (cell_rows df w a)))))
       (pivot_columns df)).

(** [wallets.get(column, default)], read at one wallet's row. *)
Fixpoint row_get (row : list (string * Q)) (column : string) (default : Q) : Q :=
  match row with
  | [] => default
  | (c, v) :: row' => if String.eqb column c then v else row_get row' column default
  end.

(** numpy's true division of two finite floats.  A zero divisor does not
    raise: the quotient is an infinity or a NaN.  [None] stands for such a
    quotient. *)
Definition true_div (n d : Q) : option Q :=
  if Qeq_bool d 0 then None else Some (n / d)%Q.

(** Lines 84 and 85. *)
Definition repayment_ratio_of (total_repaid total_borrowed : Q) : option Q :=
  true_div total_repaid (total_borrowed + 1)%Q.

Definition ltv_proxy_of (total_borrowed total_deposited : Q) : option Q :=
  true_div total_borrowed (total_deposited + 1)%Q.

Definition ns_per_day : Z := 86400 * 1000000000.

(** [(last_tx - first_tx).dt.days]: whole days, rounded down. *)
Definition days_between (first last : Z) : Z := (last - first) / ns_per_day.

(** One row of [self.wallet_features]. *)
Record WalletFeatures : Type := mkFeatures {
  first_tx : Z;
  last_tx : Z;
  pivot : list (string * Q);
  account_age_days : Z;
  liquidation_count : Q;
  repayment_ratio : Q;
  ltv_proxy : Q
}.

(** Lines 62-85 for one wallet.  [None] when the row leaves the finite
    numbers: the wallet has no timestamp at all, or a ratio has a zero
    divisor. *)
Definition wallet_features (df : list NormalizedTransaction) (w : string) : option WalletFeatures :=
  let rows := rows_of df w in
  let row := action_features df w in
  let total_borrowed := row_get row "sum_borrow" 0 in
  let total_repaid := row_get row "sum_repay" 0 in
  let total_deposited := row_get row "sum_deposit" 0 in
  match agg_min (map timestamp rows), agg_max (map timestamp rows),
        repayment_ratio_of total_repaid total_borrowed,
        ltv_proxy_of total_borrowed total_deposited with
  | Timestamp first, Timestamp last, Some ratio, Some ltv =>
      Some {| first_tx := first;
              last_tx := last;
              pivot := row;
              account_age_days := days_between first last;
              liquidation_count := row_get row "count_liquidationcall" 0;
              repayment_ratio := ratio;
              ltv_proxy := ltv |}
  | _, _, _, _ => None
  end.

Fixpoint features_of_index (df : list NormalizedTransaction) (index : list string)
  : option (list (string * WalletFeatures)) :=
  match index with
  | [] => Some []
  | w :: index' =>
      match wallet_features df w, features_of_index df index' with
      | Some f, Some rest => Some ((w, f) :: rest)
      | _, _ => None
      end
  end.

(** [engineer_features]: [self.wallet_features], one row per wallet of the
    index.  [None] when a key is not modelled or a row leaves the finite
    numbers. *)
Definition engineer_features (df : list NormalizedTransaction)
  : option (list (string * WalletFeatures)) :=
  if forallb key_modelled df then features_of_index df (wallet_index df) else None.

(** ** [calculate_scores] *)

(** [Series.clip(upper=...)]. *)
Definition clip_upper (x upper : Q) : Q := Qmin x upper.

Section Scorer.

(** [np.log1p] on the finite floats. *)
Variable log1p : Q -> Q.

(** Lines 91-96 for one wallet; the literal [0.1] is read as one tenth. *)
Definition raw_score (f : WalletFeatures) : Q :=
  let score := 500%Q in
  let score := (score + inject_Z (account_age_days f) * 0.1)%Q in
  let score := (score + log1p (row_get (pivot f) "sum_deposit" 0
                               + row_get (pivot f) "sum_borrow" 0) * 5)%Q in
  let score := (score + clip_upper (repayment_ratio f - 1) 1 * 100)%Q in
  let score := (score - liquidation_count f * 250)%Q in
  let score := (score - clip_upper (ltv_proxy f) 2 * 150)%Q in
  score.

End Scorer.

(** scikit-learn's guard for a constant feature: a zero range is replaced by
    one before the division. *)
Definition handle_zeros_in_scale (scale : Q) : Q :=
  if Qeq_bool scale 0 then 1%Q else scale.

(** The fitted attributes of a [MinMaxScaler] on one feature. *)
Record MinMaxScaler : Type := mkScaler {
  scale_ : Q;
  min_ : Q
}.

Definition data_min (x : Q) (X : list Q) : Q := fold_right Qmin x X.
Definition data_max (x : Q) (X : list Q) : Q := fold_right Qmax x X.

(** [MinMaxScaler(feature_range=(lo, hi)).fit(X)] on a single column; an
    empty column is refused. *)
Definition fit (lo hi : Q) (X : list Q) : result MinMaxScaler :=
  match X with
  | [] => Raise ValueError
  | x :: X' =>
      let data_range := (data_max x X' - data_min x X')%Q in
      let scale := ((hi - lo) / handle_zeros_in_scale data_range)%Q in
      Ok {| scale_ := scale; min_ := (lo - data_min x X' * scale)%Q |}
  end.

(** [transform]: [X *= scale_; X += min_]. *)
Definition transform (s : MinMaxScaler) (X : list Q) : list Q :=
  map (fun x => (x * scale_ s + min_ s)%Q) X.

Definition fit_transform (lo hi : Q) (X : list Q) : result (list Q) :=
  s <- fit lo hi X ;;
  Ok (transform s X).

(** [.astype(int)]: the fractional part is dropped, towards zero. *)
Definition astype_int (x : Q) : Z :=
  if Qle_bool 0 x then Qfloor x else Qceiling x.

(** Lines 98-99 on the column of raw scores. *)
Definition final_scores (score : list Q) : result (list Z) :=
  X <- fit_transform 0 1000 score ;;
  Ok (map astype_int X).


Section Pipeline.

Variable log1p : Q -> Q.

(** [calculate_scores]: [self.wallet_scores], indexed like the features. *)
Definition calculate_scores (wallet_features : list (string * WalletFeatures))
  : result (list (string * Z)) :=
  let score := map (fun wf => raw_score log1p (snd wf)) wallet_features in
  final <- final_scores score ;;
  Ok (combine (map fst wallet_features) final).

(** [engineer_features] then [calculate_scores], as [run] chains them. *)
Definition score_table (df : list NormalizedTransaction) : option (result (list (string * Z))) :=
  match engineer_features df with
  | Some wallet_features => Some (calculate_scores wallet_features)
  | None => None
  end.

End Pipeline.

(** ** The scoring arithmetic in binary64 *)

Module Binary64.

Local Open Scope float_scope.

(** An [int64] cell as a float. *)
Definition of_int (z : Z) : float :=
  if (z <? 0)%Z then - of_uint63 (Uint63.of_Z (- z)) else of_uint63 (Uint63.of_Z z).

Definition clip_upper (x upper : float) : float :=
  if upper <? x then upper else x.

(** The columns of [self.wallet_features] that [calculate_scores] reads. *)
Record WalletFeatures : Type := mkFeatures {
  sum_deposit : float;
  sum_borrow : float;
  account_age_days : Z;
  liquidation_count : Z;
  repayment_ratio : float;
  ltv_proxy : float
}.

(** Lines 78-85 from a wallet's totals. *)
Definition features (age liquidations : Z) (total_deposited total_borrowed total_repaid : float)
  : WalletFeatures :=
  {| sum_deposit := total_deposited;
     sum_borrow := total_borrowed;
     account_age_days := age;
     liquidation_count := liquidations;
     repayment_ratio := total_repaid / (total_borrowed + 1);
     ltv_proxy := total_borrowed / (total_deposited + 1) |}.

Section Scorer.

Variable log1p : float -> float.

(** Lines 91-96, one rounding per operation as numpy performs them. *)
Definition raw_score (f : WalletFeatures) : float :=
  let score := 500 in
  let score := score + of_int (account_age_days f) * 0x1.999999999999ap-4 in
  let score := score + log1p (sum_deposit f + sum_borrow f) * 5 in
  let score := score + clip_upper (repayment_ratio f - 1) 1 * 100 in
  let score := score - of_int (liquidation_count f * 250) in
  let score := score - clip_upper (ltv_proxy f) 2 * 150 in
  score.

End Scorer.

(** The guard against a constant feature.  Releases that widen it to ranges
    below ten machine epsilons agree with this one on every population
    evaluated in this file. *)
Definition handle_zeros_in_scale (scale : float) : float :=
  if scale =? 0 then 1 else scale.

Definition data_min (x : float) (X : list float) : float :=
  fold_right (fun a b => if a <? b then a else b) x X.

Definition data_max (x : float) (X : list float) : float :=
  fold_right (fun a b => if b <? a then a else b) x X.

(** [fit_transform] as scikit-learn computes it: [scale_] and [min_] first,
    then [X * scale_ + min_]. *)
Definition fit_transform (lo hi : float) (X : list float) : result (list float) :=
  match X with
  | [] => Raise ValueError
  | x :: X' =>
      let data_range := data_max x X' - data_min x X' in
      let scale_ := (hi - lo) / handle_zeros_in_scale data_range in
      let min_ := lo - data_min x X' * scale_ in
      Ok (map (fun v => v * scale_ + min_) X)
  end.

(** [.astype(int)] on a finite float: truncation towards zero.  The cast of
    an infinity or a NaN is undefined in C; [None]. *)
Definition astype_int (x : float) : option Z :=
  match Prim2SF x with
  | S754_zero _ => Some 0%Z
  | S754_finite s m e =>
      let v := if (0 <=? e)%Z then (Zpos m * 2 ^ e)%Z else (Zpos m / 2 ^ (- e))%Z in
      Some (if s then (- v)%Z else v)
  | _ => None
  end.

Definition final_scores (score : list float) : result (list (option Z)) :=
  X <- fit_transform 0 1000 score ;;
  Ok (map astype_int X).

End Binary64.

(** ** [save_results] and [run] *)

(** [range(start, stop, step)] for a positive step. *)
Fixpoint range_from (start step : Z) (n : nat) : list Z :=
  match n with
  | O => []
  | S n' => start :: range_from (start + step) step n'
  end.

Definition py_range (start stop step : Z) : list Z :=
  range_from start step (Z.to_nat ((stop - start + step - 1) / step)).

(** The counts [plt.hist] draws for a list of bin edges: one bin per pair of
    consecutive edges, half-open on the right except the last, which is
    closed.  A value outside every bin is not counted. *)
Fixpoint bin_counts (edges : list Z) (x : list Z) : list nat :=
  match edges with
  | [] => []
  | lo :: edges' =>
      match edges' with
      | [] => []
      | hi :: rest =>
          let inside := fun v =>
            (lo <=? v) && (match rest with [] => v <=? hi | _ => v <? hi end) in
          List.length (filter inside x) :: bin_counts edges' x
      end
  end.

(** What [save_results] leaves on disk: the rows of [wallet_scores.csv]
    (index and [credit_score], below the header) and the bars of
    [score_distribution.png]. *)
Record SavedResults : Type := mkSaved {
  wallet_scores_csv : list (string * Z);
  score_distribution : list nat
}.

Definition save_results (wallet_scores : list (string * Z)) : SavedResults :=
  {| wallet_scores_csv := wallet_scores;
     score_distribution := bin_counts (py_range 0 1001 100) (map snd wallet_scores) |}.


Section Run.

Variable to_datetime : json -> result datetime.
Variable log1p : Q -> Q.


End Run.

(** ** Vocabulary of the statements *)

(** A field that is absent or holds an object. *)
Definition absent_or_object (v : option json) : bool :=
  match v with
  | None => true
  | Some (JDict _) => true
  | Some _ => false
  end.

(** A field that is absent or holds a string. *)
Definition absent_or_string (v : option json) : bool :=
  match v with
  | None => true
  | Some (JStr _) => true
  | Some _ => false
  end.

(** The value [d.get(key)] reads: the field, or [None]. *)
Definition field (d : list (string * json)) (key : string) : json :=
  match lookup key d with
  | Some v => v
  | None => JNull
  end.

(** The fields of [actionData], or of the default [{}]. *)
Definition action_data_of (d : list (string * json)) : list (string * json) :=
  match lookup "actionData" d with
  | Some (JDict ad) => ad
  | _ => []
  end.


(** The min-max rescaling of the spec, in exact arithmetic. *)
Definition rescaled (lo hi raw : Q) : Q := ((raw - lo) / (hi - lo) * 1000)%Q.

(** The amount and price fields a record hands to the decimal constructor. *)
Definition amount_field (record : json) : json :=
  match record with
  | JDict d => field (action_data_of d) "amount"
  | _ => JNull
  end.

Definition price_field (record : json) : json :=
  match record with
  | JDict d => field (action_data_of d) "assetPriceUSD"
  | _ => JNull
  end.

(** A record none of whose statements outside the inner [try] raises: an
    object whose [actionData] is absent or an object, whose [action] is absent
    or a string, and whose [timestamp] pandas converts. *)
Definition well_shaped (to_datetime : json -> result datetime) (record : json) : bool :=
  match record with
  | JDict d =>
      absent_or_object (lookup "actionData" d)
      && absent_or_string (lookup "action" d)
      && match to_datetime (field d "timestamp") with
         | Ok _ => true
         | Raise _ => false
         end
  | _ => false
  end.

(** The rows that carry a wallet: [userAddress] is not [None]. *)
Definition has_wallet (tx : NormalizedTransaction) : bool :=
  match userAddress tx with
  | JNull => false
  | _ => true
  end.

(** The column of raw scores, and its extremes. *)
Definition raws (log1p : Q -> Q) (table : list (string * WalletFeatures)) : list Q :=
  map (fun wf => raw_score log1p (snd wf)) table.

Definition min_raw (score : list Q) : Q :=
  match score with
  | [] => 0%Q
  | x :: X => data_min x X
  end.

Definition max_raw (score : list Q) : Q :=
  match score with
  | [] => 0%Q
  | x :: X => data_max x X
  end.

(** The score the exact rescaling gives a raw score within a population:
    the rescaled value, cast. *)
Definition score_of (log1p : Q -> Q) (table : list (string * WalletFeatures)) (raw : Q) : Z :=
  astype_int (rescaled (min_raw (raws log1p table)) (max_raw (raws log1p table)) raw).

(** A wallet's features with another repayment ratio, leverage or age. *)
Definition with_repayment_ratio (f : WalletFeatures) (r : Q) : WalletFeatures :=
  {| first_tx := first_tx f;
     last_tx := last_tx f;
     pivot := pivot f;
     account_age_days := account_age_days f;
     liquidation_count := liquidation_count f;
     repayment_ratio := r;
     ltv_proxy := ltv_proxy f |}.

Definition with_ltv_proxy (f : WalletFeatures) (l : Q) : WalletFeatures :=
  {| first_tx := first_tx f;
     last_tx := last_tx f;
     pivot := pivot f;
     account_age_days := account_age_days f;
     liquidation_count := liquidation_count f;
     repayment_ratio := repayment_ratio f;
     ltv_proxy := l |}.




Definition total (counts : list nat) : nat := fold_right Nat.add O counts.


(** ** Concrete inputs *)

(** A record as the data model describes it. *)
Definition record_deposit : json :=
  JDict [("userWallet", JStr "0xa1");
         ("timestamp", JNum 1629178166);
         ("action", JStr "deposit");
         ("actionData", JDict [("amount", JStr "2000000000");
                               ("assetPriceUSD", JStr "0.99")])].

(** The same record with a [null] action: [None.lower()] raises. *)
Definition record_null_action : json :=
  JDict [("userWallet", JStr "0xa1");
         ("timestamp", JNum 1629178166);
         ("action", JNull);
         ("actionData", JDict [("amount", JStr "2000000000");
                               ("assetPriceUSD", JStr "0.99")])].

(** A record whose [actionData] is a string: it has no [get]. *)
Definition record_text_action_data : json :=
  JDict [("userWallet", JStr "0xb2");
         ("timestamp", JNum 1629178200);
         ("action", JStr "borrow");
         ("actionData", JStr "n/a")].

(** A record with a non-numeric amount and no price. *)
Definition record_bad_amount : json :=
  JDict [("userWallet", JStr "0xa1");
         ("timestamp", JNull);
         ("actionData", JDict [("amount", JStr "twelve")])].


(** A record without a [userWallet] field. *)
Definition record_no_wallet : list (string * json) :=
  [("timestamp", JNum 1629178400);
   ("action", JStr "Deposit");
   ("actionData", JDict [("amount", JStr "5"); ("assetPriceUSD", JStr "2")])].

(** The row [record_no_wallet] parses to. *)
Definition tx_no_wallet : NormalizedTransaction :=
  {| userAddress := JNull;
     timestamp := Timestamp 1629178400000000000;
     action := "deposit";
     amountUSD := amount_usd (JStr "5") (JStr "2") |}.

Definition day : Z := ns_per_day.

(** The two wallets of the worked example: A deposits $1000 and repays $500
    ten days later; B borrows $1000 and is liquidated a day later. *)
Definition store_example : list NormalizedTransaction :=
  [ mkTx (JStr "A") (Timestamp 0) "deposit" 1000;
    mkTx (JStr "A") (Timestamp (10 * day)) "repay" 500;
    mkTx (JStr "B") (Timestamp 0) "borrow" 1000;
    mkTx (JStr "B") (Timestamp (1 * day)) "liquidationcall" 0 ].



(** [np.log1p(1000.0)]: the double nearest to [ln 1001]. *)
Definition log1p_1000 : float := 0x1.ba2909ce4f864p+2%float.

(** The worked example's wallets in binary64. *)
Definition wallet_A : Binary64.WalletFeatures := Binary64.features 10 0 1000 0 500.
Definition wallet_B : Binary64.WalletFeatures := Binary64.features 1 1 0 1000 0.

(** Two wallets that only ever redeem: X with a single record, Y with
    records twelve days apart.  Neither deposits, borrows or repays, so
    [np.log1p] is only asked for [log1p(0) = 0]. *)
Definition store_redeem : list NormalizedTransaction :=
  [ mkTx (JStr "X") (Timestamp 0) "redeemunderlying" 50;
    mkTx (JStr "Y") (Timestamp 0) "redeemunderlying" 50;
    mkTx (JStr "Y") (Timestamp (12 * day)) "redeemunderlying" 50 ].

Definition wallet_new : Binary64.WalletFeatures := Binary64.features 0 0 0 0 0.
Definition wallet_12_days : Binary64.WalletFeatures := Binary64.features 12 0 0 0 0.



(** The feature rows of the worked example, as [engineer_features] builds
    them from [store_example]. *)
Definition features_A : WalletFeatures :=
  {| first_tx := 0;
     last_tx := 10 * day;
     pivot := action_features store_example "A";
     account_age_days := 10;
     liquidation_count := 0;
     repayment_ratio := 500 / (0 + 1);
     ltv_proxy := 0 / (1000 + 1) |}.

Definition features_B : WalletFeatures :=
  {| first_tx := 0;
     last_tx := 1 * day;
     pivot := action_features store_example "B";
     account_age_days := 1;
     liquidation_count := 1;
     repayment_ratio := 0 / (1000 + 1);
     ltv_proxy := 1000 / (0 + 1) |}.




(** * Properties *)

(** ** The record parser *)

Lemma bind_Ok {A B : Type} (m : result A) (k : A -> result B) (b : B) :
  bind m k = Ok b -> exists a, m = Ok a /\ k a = Ok b.
Proof.
  destruct m as [a | e]; simpl; intro H; [ exists a; auto | discriminate ].
Qed.

Lemma get_dict (d : list (string * json)) (key : string) (default : json) :
  get (JDict d) key default
  = Ok (match lookup key d with Some v => v | None => default end).
Proof. reflexivity. Qed.


Lemma amount_usd_raise (amount_str price_str : json) (e : exn) :
  amount_usd_try amount_str price_str = Raise e ->
  amount_usd amount_str price_str = 0%Q.
Proof. unfold amount_usd; intros ->; reflexivity. Qed.

Lemma parse_record_well_shaped (to_datetime : json -> result datetime) (record : json) :
  well_shaped to_datetime record = true ->
  exists tx,
    parse_record to_datetime record = Ok tx /\
    amountUSD tx = amount_usd (amount_field record) (price_field record).
Proof.
  destruct record as [ | | | | | d]; simpl; try discriminate.
  intro H.
  apply andb_prop in H as [H Hts]; apply andb_prop in H as [Had Hact].
  unfold parse_record, field, action_data_of in *.
  rewrite get_dict.
  destruct (to_datetime _) as [t | ] eqn:Et; [ | discriminate ].
  assert (Hlow : exists a,
             (act <- get (JDict d) "action" (JStr "unknown") ;; call_lower act) = Ok a).
  { rewrite get_dict.
    destruct (lookup "action" d) as [[ | | | s | | ] | ]; simpl in Hact; try discriminate;
      simpl; eexists; reflexivity. }
  destruct Hlow as [a Ha].
  destruct (lookup "actionData" d) as [[ | | | | | ad] | ]; simpl in Had; try discriminate;
    simpl; rewrite Et; simpl;
    simpl in Ha; destruct (lookup "action" d) as [[ | | | s | | ] | ];
    try discriminate; simpl; eexists; split; reflexivity.
Qed.

(** Conversely, only a well-shaped record parses. *)
Lemma parse_record_Ok (to_datetime : json -> result datetime) (record : json)
      (tx : NormalizedTransaction) :
  parse_record to_datetime record = Ok tx ->
  well_shaped to_datetime record = true /\
  amountUSD tx = amount_usd (amount_field record) (price_field record).
Proof.
  intro H.
  assert (Hws : well_shaped to_datetime record = true).
  { destruct record as [ | | | | | d]; try discriminate H.
    unfold parse_record in H; rewrite get_dict in H.
    simpl; unfold field.
    destruct (lookup "actionData" d) as [[ | | | | | ad] | ]; try discriminate H;
      simpl in H;
      (destruct (to_datetime _) as [t | ]; [ | discriminate H ]);
      simpl in H;
      (destruct (lookup "action" d) as [[ | | | a | | ] | ]; try discriminate H);
      reflexivity. }
  split; [ exact Hws | ].
  destruct (parse_record_well_shaped _ _ Hws) as [tx' [H' Ha]].
  rewrite H in H'; injection H' as <-; exact Ha.
Qed.

Lemma parse_records_well_shaped (to_datetime : json -> result datetime) (records : list json) :
  Forall (fun r => well_shaped to_datetime r = true) records ->
  exists df,
    parse_records to_datetime records = Ok df /\
    Forall2 (fun r tx => parse_record to_datetime r = Ok tx) records df.
Proof.
  induction 1 as [ | r records Hr _ IH ]; simpl.
  - exists []; split; [ reflexivity | constructor ].
  - destruct (parse_record_well_shaped _ _ Hr) as [tx [Htx _]].
    destruct IH as [df [Hdf Hall]].
    exists (tx :: df); rewrite Htx, Hdf; simpl; split; [ reflexivity | ].
    constructor; assumption.
Qed.

Lemma parse_records_Forall2 (to_datetime : json -> result datetime) (records : list json) :
  forall df,
    parse_records to_datetime records = Ok df ->
    Forall2 (fun r tx => parse_record to_datetime r = Ok tx) records df.
Proof.
  induction records as [ | r records IH ]; simpl; intros df H.
  - injection H as <-; constructor.
  - apply bind_Ok in H as [tx [Htx H]].
    apply bind_Ok in H as [txs [Htxs H]].
    injection H as <-; constructor; auto.
Qed.

(** [load_and_parse_data] hands its caller a flag and never an exception:
    it either fills [self.df] and returns [True], or returns [False] and
    leaves [self.df] empty. *)
Lemma load_and_parse_data_returns (to_datetime : json -> result datetime) (f : input_file) :
  (exists df, load_and_parse_data to_datetime f = (true, Some df))
  \/ load_and_parse_data to_datetime f = (false, None).
Proof.
  unfold load_and_parse_data.
  match goal with |- context [match ?a with Ok _ => _ | Raise _ => _ end] => destruct a as [df | e] end.
  - left; exists df; reflexivity.
  - right; destruct e; reflexivity.
Qed.

Lemma load_and_parse_data_true (to_datetime : json -> result datetime) (j : json)
      (df : list NormalizedTransaction) :
  load_and_parse_data to_datetime (Content j) = (true, Some df) ->
  exists records, iter j = Ok records /\ parse_records to_datetime records = Ok df.
Proof.
  unfold load_and_parse_data; simpl.
  destruct (iter j) as [records | e] eqn:Ei; simpl.
  - destruct (parse_records to_datetime records) as [df' | e] eqn:Ep.
    + intro H; injection H as <-; exists records; auto.
    + destruct e; discriminate.
  - destruct e; discriminate.
Qed.

Lemma parse_records_Raise (to_datetime : json -> result datetime) (records : list json)
      (r : json) (e : exn) :
  In r records ->
  parse_record to_datetime r = Raise e ->
  exists e', parse_records to_datetime records = Raise e'.
Proof.
  induction records as [ | r' records IH ]; simpl; [ tauto | ].
  intros [-> | Hin] Hr.
  - rewrite Hr; simpl; eauto.
  - destruct (parse_record to_datetime r') as [tx | e1]; simpl; [ | eauto ].
    destruct (IH Hin Hr) as [e' ->]; simpl; eauto.
Qed.

(** One record that raises outside the inner handler costs the whole batch:
    the outer handler returns [False] and no table is built. *)
Lemma raising_record_aborts_batch (to_datetime : json -> result datetime) (records : list json)
      (r : json) (e : exn) :
  In r records ->
  parse_record to_datetime r = Raise e ->
  load_and_parse_data to_datetime (Content (JList records)) = (false, None).
Proof.
  intros Hin Hr.
  destruct (parse_records_Raise _ _ _ _ Hin Hr) as [e' He'].
  unfold load_and_parse_data; simpl; rewrite He'; destruct e'; reflexivity.
Qed.

(** C2, as amended.  A batch of well-shaped records always loads: every
    error of the amount and price extraction is absorbed by the inner handler,
    the record still yields a transaction, and its [amountUSD] is [0.0]
    whenever that extraction raised. *)
Theorem well_shaped_batch_loads :
  forall (to_datetime : json -> result datetime) (records : list json),
    Forall (fun r => well_shaped to_datetime r = true) records ->
    exists df,
      load_and_parse_data to_datetime (Content (JList records)) = (true, Some df) /\
      Forall2 (fun r tx =>
                 parse_record to_datetime r = Ok tx /\
                 amountUSD tx = amount_usd (amount_field r) (price_field r) /\
                 (forall e, amount_usd_try (amount_field r) (price_field r) = Raise e ->
                            amountUSD tx = 0%Q))
              records df.
Proof.
  intros to_datetime records Hall.
  destruct (parse_records_well_shaped _ _ Hall) as [df [Hdf Hpar]].
  exists df; split.
  - unfold load_and_parse_data; simpl; rewrite Hdf; reflexivity.
  - clear Hdf; induction Hpar as [ | r tx records df Hr Hrest IH ]; constructor.
    + inversion Hall as [ | ? ? Hws _ ]; subst.
      destruct (parse_record_well_shaped _ _ Hws) as [tx' [Htx' Hamt]].
      rewrite Hr in Htx'; injection Htx' as <-.
      repeat split; auto.
      intros e He; rewrite Hamt; eapply amount_usd_raise; eassumption.
    + apply IH; inversion Hall; assumption.
Qed.

Lemma well_shaped_batch_loads_witness :
  exists df,
    load_and_parse_data to_datetime_unix (Content (JList [record_deposit; record_bad_amount]))
    = (true, Some df) /\
    Forall2 (fun r tx =>
               parse_record to_datetime_unix r = Ok tx /\
               amountUSD tx = amount_usd (amount_field r) (price_field r) /\
               (forall e, amount_usd_try (amount_field r) (price_field r) = Raise e ->
                          amountUSD tx = 0%Q))
            [record_deposit; record_bad_amount] df.
Proof.
  apply (well_shaped_batch_loads to_datetime_unix [record_deposit; record_bad_amount]).
  repeat constructor.
Defined.

(** C2, as stated, fails: a record whose [action] is [null] raises outside
    the inner handler, and the outer handler gives up the whole batch, the
    well-formed record before it included. *)
Lemma null_action_aborts_batch :
  parse_record to_datetime_unix record_null_action = Raise AttributeError /\
  load_and_parse_data to_datetime_unix (Content (JList [record_deposit; record_null_action]))
  = (false, None).
Proof. split; reflexivity. Qed.




(** C9, as amended.  Whenever the load succeeds, the table holds exactly one
    transaction per record, in the order of the input. *)
Theorem loaded_table_has_one_row_per_record :
  forall (to_datetime : json -> result datetime) (records : list json)
         (df : list NormalizedTransaction),
    load_and_parse_data to_datetime (Content (JList records)) = (true, Some df) ->
    List.length df = List.length records /\
    Forall2 (fun r tx => parse_record to_datetime r = Ok tx) records df.
Proof.
  intros to_datetime records df H.
  apply load_and_parse_data_true in H as [records' [Hi Hp]].
  simpl in Hi; injection Hi as <-.
  pose proof (parse_records_Forall2 _ _ _ Hp) as Hall.
  split; [ symmetry; eapply Forall2_length; eassumption | assumption ].
Qed.

Lemma loaded_table_has_one_row_per_record_witness :
  List.length [mkTx (JStr "0xa1") (Timestamp 1629178166000000000) "deposit"
                    (inject_Z 2000000000 * Qmake 99 100)%Q;
               mkTx (JStr "0xa1") NaT "unknown" 0%Q]
  = List.length [record_deposit; record_bad_amount] /\
  Forall2 (fun r tx => parse_record to_datetime_unix r = Ok tx)
          [record_deposit; record_bad_amount]
          [mkTx (JStr "0xa1") (Timestamp 1629178166000000000) "deposit"
                (inject_Z 2000000000 * Qmake 99 100)%Q;
           mkTx (JStr "0xa1") NaT "unknown" 0%Q].
Proof.
  apply (loaded_table_has_one_row_per_record to_datetime_unix).
  reflexivity.
Defined.

(** C9, as stated, fails: two records go in and no table comes out, because
    the second record's [actionData] is not an object. *)
Lemma text_action_data_leaves_no_table :
  load_and_parse_data to_datetime_unix
    (Content (JList [record_deposit; record_text_action_data]))
  = (false, None).
Proof. reflexivity. Qed.

(** ** The feature aggregator *)

Lemma group_key_no_wallet (tx : NormalizedTransaction) :
  has_wallet tx = false -> group_key tx = None /\ key_modelled tx = true.
Proof.
  unfold has_wallet, group_key, key_modelled.
  destruct (userAddress tx); intro H; try discriminate; split; reflexivity.
Qed.

Lemma keys_filter_has_wallet (df : list NormalizedTransaction) :
  keys (filter has_wallet df) = keys df.
Proof.
  induction df as [ | tx df IH ]; simpl; [ reflexivity | ].
  destruct (has_wallet tx) eqn:E; simpl; rewrite IH; [ reflexivity | ].
  destruct (group_key_no_wallet _ E) as [-> _]; reflexivity.
Qed.

Lemma actions_filter_has_wallet (df : list NormalizedTransaction) :
  actions (filter has_wallet df) = actions df.
Proof.
  induction df as [ | tx df IH ]; simpl; [ reflexivity | ].
  destruct (has_wallet tx) eqn:E; simpl; rewrite IH; [ reflexivity | ].
  destruct (group_key_no_wallet _ E) as [-> _]; reflexivity.
Qed.

Lemma rows_of_filter_has_wallet (df : list NormalizedTransaction) (w : string) :
  rows_of (filter has_wallet df) w = rows_of df w.
Proof.
  unfold rows_of.
  induction df as [ | tx df IH ]; simpl; [ reflexivity | ].
  destruct (has_wallet tx) eqn:E; simpl; rewrite IH; [ reflexivity | ].
  unfold has_key; destruct (group_key_no_wallet _ E) as [-> _]; reflexivity.
Qed.

Lemma key_modelled_filter_has_wallet (df : list NormalizedTransaction) :
  forallb key_modelled (filter has_wallet df) = forallb key_modelled df.
Proof.
  induction df as [ | tx df IH ]; simpl; [ reflexivity | ].
  destruct (has_wallet tx) eqn:E; simpl; rewrite IH; [ reflexivity | ].
  destruct (group_key_no_wallet _ E) as [_ ->]; reflexivity.
Qed.

Lemma wallet_features_filter_has_wallet (df : list NormalizedTransaction) (w : string) :
  wallet_features (filter has_wallet df) w = wallet_features df w.
Proof.
  unfold wallet_features, action_features, pivot_columns, cell_rows.
  rewrite rows_of_filter_has_wallet, actions_filter_has_wallet; reflexivity.
Qed.

Lemma features_of_index_filter_has_wallet (df : list NormalizedTransaction) (index : list string) :
  features_of_index (filter has_wallet df) index = features_of_index df index.
Proof.
  induction index as [ | w index IH ]; simpl; [ reflexivity | ].
  rewrite wallet_features_filter_has_wallet, IH; reflexivity.
Qed.

(** Rows without a wallet leave no trace in the feature table. *)
Lemma engineer_features_filter_has_wallet (df : list NormalizedTransaction) :
  engineer_features df = engineer_features (filter has_wallet df).
Proof.
  unfold engineer_features, wallet_index.
  rewrite key_modelled_filter_has_wallet, keys_filter_has_wallet,
    features_of_index_filter_has_wallet; reflexivity.
Qed.

Lemma In_insert_sorted (k w : string) (l : list string) :
  In w (insert_sorted k l) <-> w = k \/ In w l.
Proof.
  induction l as [ | k' l IH ]; simpl.
  - intuition.
  - destruct (String.leb k k'); simpl; rewrite ?IH; intuition.
Qed.

Lemma In_sort_keys (w : string) (l : list string) :
  In w (sort_keys l) <-> In w l.
Proof.
  unfold sort_keys; induction l as [ | k l IH ]; simpl; [ tauto | ].
  rewrite In_insert_sorted, IH; intuition.
Qed.

Lemma In_keys (w : string) (df : list NormalizedTransaction) :
  In w (keys df) -> exists tx, In tx df /\ userAddress tx = JStr w.
Proof.
  induction df as [ | tx df IH ]; simpl; [ tauto | ].
  unfold group_key; destruct (userAddress tx) eqn:E; simpl; intro H;
    try (destruct (IH H) as [tx' [Hin Hw]]; exists tx'; auto).
  destruct H as [<- | H].
  - exists tx; auto.
  - destruct (IH H) as [tx' [Hin Hw]]; exists tx'; auto.
Qed.

Lemma In_wallet_index (w : string) (df : list NormalizedTransaction) :
  In w (wallet_index df) -> exists tx, In tx df /\ userAddress tx = JStr w.
Proof.
  unfold wallet_index; rewrite In_sort_keys, nodup_In; apply In_keys.
Qed.

Lemma features_of_index_fst (df : list NormalizedTransaction) (index : list string) :
  forall table, features_of_index df index = Some table -> map fst table = index.
Proof.
  induction index as [ | w index IH ]; simpl; intros table H.
  - injection H as <-; reflexivity.
  - destruct (wallet_features df w) as [f | ]; [ | discriminate ].
    destruct (features_of_index df index) as [rest | ]; [ | discriminate ].
    injection H as <-; simpl; f_equal; apply IH; reflexivity.
Qed.

Lemma final_scores_length (score : list Q) (final : list Z) :
  final_scores score = Ok final -> List.length final = List.length score.
Proof.
  unfold final_scores, fit_transform, fit, transform.
  destruct score as [ | x X ]; simpl; [ discriminate | ].
  intro H; injection H as <-; simpl; rewrite !length_map; reflexivity.
Qed.

(** The score table is indexed like the feature table. *)
Lemma calculate_scores_index (log1p : Q -> Q) (table : list (string * WalletFeatures))
      (scores : list (string * Z)) :
  calculate_scores log1p table = Ok scores -> map fst scores = map fst table.
Proof.
  unfold calculate_scores; intro H.
  apply bind_Ok in H as [final [Hf H]]; injection H as <-.
  apply final_scores_length in Hf; rewrite length_map in Hf.
  revert final Hf; induction table as [ | wf table IH ]; intros [ | z final ]; simpl;
    intro Hlen; try discriminate; try reflexivity.
  f_equal; apply IH; lia.
Qed.

(** C10.  A record without a [userWallet] field parses to a row whose key is
    [None]; [groupby] and [pivot_table] drop such rows, so the feature table
    and the score table are those of the remaining rows, and every wallet
    that is scored is the [userWallet] of some row. *)
Theorem absent_wallet_is_not_scored :
  forall (to_datetime : json -> result datetime) (log1p : Q -> Q)
         (d : list (string * json)) (tx : NormalizedTransaction),
    lookup "userWallet" d = None ->
    parse_record to_datetime (JDict d) = Ok tx ->
    userAddress tx = JNull /\
    has_wallet tx = false /\
    (forall df,
        engineer_features df = engineer_features (filter has_wallet df) /\
        score_table log1p df = score_table log1p (filter has_wallet df)) /\
    (forall df scores w s,
        score_table log1p df = Some (Ok scores) ->
        In (w, s) scores ->
        exists tx', In tx' df /\ userAddress tx' = JStr w).
Proof.
  intros to_datetime log1p d tx Hd Hp.
  assert (Hu : userAddress tx = JNull).
  { unfold parse_record in Hp.
    repeat (apply bind_Ok in Hp as [? [? Hp]]).
    injection Hp as <-; simpl.
    match goal with H : get (JDict d) "userWallet" JNull = Ok _ |- _ =>
      rewrite get_dict, Hd in H; injection H as <- end.
    reflexivity. }
  split; [ exact Hu | ].
  split; [ unfold has_wallet; rewrite Hu; reflexivity | ].
  split.
  - intro df; split; [ apply engineer_features_filter_has_wallet | ].
    unfold score_table; rewrite <- engineer_features_filter_has_wallet; reflexivity.
  - intros df scores w s Hs Hin.
    unfold score_table in Hs.
    destruct (engineer_features df) as [table | ] eqn:Ef; [ | discriminate ].
    injection Hs as Hs.
    apply calculate_scores_index in Hs.
    unfold engineer_features in Ef.
    destruct (forallb key_modelled df); [ | discriminate ].
    apply features_of_index_fst in Ef.
    apply In_wallet_index.
    rewrite <- Ef, <- Hs.
    change w with (fst (w, s)); apply in_map; exact Hin.
Qed.

Lemma absent_wallet_is_not_scored_witness :
  userAddress tx_no_wallet = JNull /\
  has_wallet tx_no_wallet = false /\
  (forall df,
      engineer_features df = engineer_features (filter has_wallet df) /\
      score_table (fun _ => 0%Q) df = score_table (fun _ => 0%Q) (filter has_wallet df)) /\
  (forall df scores w s,
      score_table (fun _ => 0%Q) df = Some (Ok scores) ->
      In (w, s) scores ->
      exists tx', In tx' df /\ userAddress tx' = JStr w).
Proof.
  apply (absent_wallet_is_not_scored to_datetime_unix (fun _ => 0%Q) record_no_wallet);
    reflexivity.
Defined.

Lemma true_div_Some (n d : Q) :
  ~ (d == 0)%Q -> true_div n d = Some (n / d)%Q.
Proof.
  intro H; unfold true_div.
  destruct (Qeq_bool d 0) eqn:E; [ | reflexivity ].
  apply Qeq_bool_iff in E; contradiction.
Qed.

Lemma ratios_without_zero_divisor (total_repaid total_borrowed total_deposited : Q) :
  ~ (total_borrowed + 1 == 0)%Q ->
  ~ (total_deposited + 1 == 0)%Q ->
  repayment_ratio_of total_repaid total_borrowed
  = Some (total_repaid / (total_borrowed + 1))%Q /\
  ltv_proxy_of total_borrowed total_deposited
  = Some (total_borrowed / (total_deposited + 1))%Q.
Proof.
  intros Hb Hd; unfold repayment_ratio_of, ltv_proxy_of.
  split; apply true_div_Some; assumption.
Qed.




Lemma row_get_nonneg (row : list (string * Q)) (column : string) :
  Forall (fun cv => (0 <= snd cv)%Q) row -> (0 <= row_get row column 0)%Q.
Proof.
  induction 1 as [ | [c v] row Hv _ IH ]; simpl.
  - apply Qle_refl.
  - destruct (String.eqb column c); [ exact Hv | exact IH ].
Qed.

Lemma Qsum_nonneg (l : list Q) :
  Forall (fun q => (0 <= q)%Q) l -> (0 <= Qsum l)%Q.
Proof.
  induction 1 as [ | q l Hq _ IH ]; simpl; [ apply Qle_refl | ].
  replace 0%Q with (0 + 0)%Q by reflexivity; apply Qplus_le_compat; assumption.
Qed.

Lemma action_features_nonneg (df : list NormalizedTransaction) (w : string) :
  Forall (fun tx => (0 <= amountUSD tx)%Q) df ->
  Forall (fun cv => (0 <= snd cv)%Q) (action_features df w).
Proof.
  intro Hdf; unfold action_features.
  apply Forall_app; split; apply Forall_map, Forall_forall; intros a _; simpl.
  - apply Qsum_nonneg, Forall_map, Forall_forall; intros tx Htx.
    unfold cell_rows, rows_of in Htx.
    apply filter_In in Htx as [Htx _]; apply filter_In in Htx as [Htx _].
    rewrite Forall_forall in Hdf; auto.
  - unfold Qle; simpl; lia.
Qed.

(** In a table without negative amounts no wallet has a zero denominator. *)
Lemma nonnegative_table_ratios_finite (df : list NormalizedTransaction) (w : string) :
  Forall (fun tx => (0 <= amountUSD tx)%Q) df ->
  exists ratio ltv,
    repayment_ratio_of (row_get (action_features df w) "sum_repay" 0)
                       (row_get (action_features df w) "sum_borrow" 0) = Some ratio /\
    ltv_proxy_of (row_get (action_features df w) "sum_borrow" 0)
                 (row_get (action_features df w) "sum_deposit" 0) = Some ltv.
Proof.
  intro Hdf.
  pose proof (action_features_nonneg df w Hdf) as Hrow.
  pose proof (row_get_nonneg _ "sum_borrow" Hrow) as Hb.
  pose proof (row_get_nonneg _ "sum_deposit" Hrow) as Hd.
  destruct (ratios_without_zero_divisor (row_get (action_features df w) "sum_repay" 0)
              (row_get (action_features df w) "sum_borrow" 0)
              (row_get (action_features df w) "sum_deposit" 0)) as [H1 H2];
    [ intro H; lra | intro H; lra | ].
  eexists; eexists; split; eassumption.
Qed.

(** ** The raw score *)


(** ** The rescaling *)

Lemma astype_int_comp (x y : Q) : (x == y)%Q -> astype_int x = astype_int y.
Proof.
  intro H; unfold astype_int.
  rewrite (Qfloor_comp _ _ H), (Qceiling_comp _ _ H).
  replace (Qle_bool 0 x) with (Qle_bool 0 y); [ reflexivity | ].
  rewrite H; reflexivity.
Qed.

Lemma astype_int_nonneg (x : Q) : (0 <= x)%Q -> astype_int x = Qfloor x.
Proof.
  intro H; unfold astype_int.
  apply Qle_bool_iff in H; rewrite H; reflexivity.
Qed.

Lemma data_min_le (x : Q) (X : list Q) :
  forall y, In y (x :: X) -> (data_min x X <= y)%Q.
Proof.
  induction X as [ | z X IH ]; intros y Hy.
  - destruct Hy as [<- | []]; apply Qle_refl.
  - change (data_min x (z :: X)) with (Qmin z (data_min x X)).
    destruct Hy as [<- | [<- | Hy]].
    + eapply Qle_trans; [ apply Q.le_min_r | apply IH; left; reflexivity ].
    + apply Q.le_min_l.
    + eapply Qle_trans; [ apply Q.le_min_r | apply IH; right; exact Hy ].
Qed.

Lemma data_max_ge (x : Q) (X : list Q) :
  forall y, In y (x :: X) -> (y <= data_max x X)%Q.
Proof.
  induction X as [ | z X IH ]; intros y Hy.
  - destruct Hy as [<- | []]; apply Qle_refl.
  - change (data_max x (z :: X)) with (Qmax z (data_max x X)).
    destruct Hy as [<- | [<- | Hy]].
    + eapply Qle_trans; [ apply IH; left; reflexivity | apply Q.le_max_r ].
    + apply Q.le_max_l.
    + eapply Qle_trans; [ apply IH; right; exact Hy | apply Q.le_max_r ].
Qed.

Lemma data_min_le_max (x : Q) (X : list Q) : (data_min x X <= data_max x X)%Q.
Proof.
  eapply Qle_trans; [ apply data_min_le | apply data_max_ge ]; left; reflexivity.
Qed.

(** What [fit_transform] computes for one value, once the range is known not
    to be zero. *)
Lemma transform_rescaled (lo hi v : Q) :
  ~ (hi == lo)%Q ->
  (v * ((1000 - 0) / handle_zeros_in_scale (hi - lo))
   + (0 - lo * ((1000 - 0) / handle_zeros_in_scale (hi - lo)))
   == rescaled lo hi v)%Q.
Proof.
  intro H; unfold handle_zeros_in_scale, rescaled.
  destruct (Qeq_bool (hi - lo) 0) eqn:E.
  - apply Qeq_bool_iff in E; exfalso; apply H; lra.
  - field; intro H0; apply H; lra.
Qed.

Lemma final_scores_nondegenerate (x : Q) (X : list Q) :
  ~ (data_max x X == data_min x X)%Q ->
  final_scores (x :: X)
  = Ok (map (fun raw => astype_int (rescaled (data_min x X) (data_max x X) raw)) (x :: X)).
Proof.
  intro H; unfold final_scores, fit_transform, fit, transform, bind.
  cbn [scale_ min_]; f_equal; rewrite map_map.
  apply map_ext; intro v; apply astype_int_comp, transform_rescaled, H.
Qed.




Lemma min_raw_le (score : list Q) (y : Q) : In y score -> (min_raw score <= y)%Q.
Proof.
  destruct score as [ | x X ]; [ intros [] | apply data_min_le ].
Qed.

Lemma max_raw_ge (score : list Q) (y : Q) : In y score -> (y <= max_raw score)%Q.
Proof.
  destruct score as [ | x X ]; [ intros [] | apply data_max_ge ].
Qed.

Lemma rescaled_bounds (lo hi v : Q) :
  (lo < hi)%Q -> (lo <= v)%Q -> (v <= hi)%Q ->
  (0 <= rescaled lo hi v)%Q /\ (rescaled lo hi v <= 1000)%Q.
Proof.
  intros Hlh Hlo Hhi; unfold rescaled.
  assert (Hr : (0 < hi - lo)%Q) by lra.
  assert (H0 : (0 <= (v - lo) / (hi - lo))%Q) by (apply Qle_shift_div_l; [ exact Hr | lra ]).
  assert (H1 : ((v - lo) / (hi - lo) <= 1)%Q) by (apply Qle_shift_div_r; [ exact Hr | lra ]).
  split; lra.
Qed.

Lemma rescaled_at_min (lo hi v : Q) :
  ~ (hi == lo)%Q -> (v == lo)%Q -> (rescaled lo hi v == 0)%Q.
Proof.
  intros H Hv; unfold rescaled; rewrite Hv; field; intro H0; apply H; lra.
Qed.

Lemma rescaled_at_max (lo hi v : Q) :
  ~ (hi == lo)%Q -> (v == hi)%Q -> (rescaled lo hi v == 1000)%Q.
Proof.
  intros H Hv; unfold rescaled; rewrite Hv; field; intro H0; apply H; lra.
Qed.

Lemma rescaled_comp (lo hi v v' : Q) :
  (v == v')%Q -> (rescaled lo hi v == rescaled lo hi v')%Q.
Proof. intro H; unfold rescaled; rewrite H; reflexivity. Qed.

Lemma astype_int_range (x : Q) :
  (0 <= x)%Q -> (x <= 1000)%Q -> 0 <= astype_int x <= 1000.
Proof.
  intros H0 H1; rewrite (astype_int_nonneg _ H0); split.
  - change 0 with (Qfloor 0); apply Qfloor_resp_le; exact H0.
  - change 1000 with (Qfloor 1000); apply Qfloor_resp_le; exact H1.
Qed.






(** In exact arithmetic the rescaling keeps every promise of the range
    invariant: scores between 0 and 1000, the minimum at 0, the maximum at
    1000, and equal raw scores scored alike. *)
Lemma exact_rescaling_range_invariant (log1p : Q -> Q) (table : list (string * WalletFeatures)) :
  table <> [] ->
  ~ (max_raw (raws log1p table) == min_raw (raws log1p table))%Q ->
  forall wf, In wf table ->
    0 <= score_of log1p table (raw_score log1p (snd wf)) <= 1000 /\
    ((raw_score log1p (snd wf) == min_raw (raws log1p table))%Q ->
     score_of log1p table (raw_score log1p (snd wf)) = 0) /\
    ((raw_score log1p (snd wf) == max_raw (raws log1p table))%Q ->
     score_of log1p table (raw_score log1p (snd wf)) = 1000) /\
    (forall wf' : string * WalletFeatures,
        (raw_score log1p (snd wf') == raw_score log1p (snd wf))%Q ->
        score_of log1p table (raw_score log1p (snd wf'))
        = score_of log1p table (raw_score log1p (snd wf))).
Proof.
  intros Hne H wf Hwf; unfold score_of.
  assert (Hin : In (raw_score log1p (snd wf)) (raws log1p table))
    by (apply (in_map (fun wf => raw_score log1p (snd wf))), Hwf).
  pose proof (min_raw_le _ _ Hin) as Hlo.
  pose proof (max_raw_ge _ _ Hin) as Hhi.
  assert (Hlt : (min_raw (raws log1p table) < max_raw (raws log1p table))%Q).
  { apply Qnot_le_lt; intro Hle; apply H.
    apply Qle_antisym; [ exact Hle | eapply Qle_trans; eassumption ]. }
  destruct (rescaled_bounds _ _ _ Hlt Hlo Hhi) as [H0 H1].
  split; [ apply astype_int_range; assumption | ].
  split; [ | split ].
  - intro Hmin; transitivity (astype_int 0); [ | reflexivity ].
    apply astype_int_comp, rescaled_at_min; assumption.
  - intro Hmax; transitivity (astype_int 1000); [ | reflexivity ].
    apply astype_int_comp, rescaled_at_max; assumption.
  - intros wf' Heq; apply astype_int_comp, rescaled_comp, Heq.
Qed.

(** ** The rescaling in binary64 *)

(** C4 on the program's own arithmetic.  Two wallets that only redeem, one
    twelve days old ([store_redeem]): raw scores 400 and 401.2.  Exact
    arithmetic scores the older wallet 1000; in binary64
    [401.2 * scale_ + min_] falls short of 1000 and the cast leaves 999, so
    the wallet with the maximum raw score does not receive 1000. *)
Theorem top_wallet_is_scored_999 :
  map (Binary64.raw_score (fun _ => 0%float)) [wallet_new; wallet_12_days]
  = [400%float; 0x1.9133333333333p+8%float] /\
  Binary64.fit_transform 0 1000 [400%float; 0x1.9133333333333p+8%float]
  = Ok [0%float; 0x1.f3ffffffffep+9%float] /\
  Binary64.final_scores (map (Binary64.raw_score (fun _ => 0%float)) [wallet_new; wallet_12_days])
  = Ok [Some 0; Some 999] /\
  option_map (map (fun wf => (fst wf, account_age_days (snd wf), liquidation_count (snd wf))))
             (engineer_features store_redeem)
  = Some [("X", 0, 0%Q); ("Y", 12, 0%Q)] /\
  score_table (fun _ => 0%Q) store_redeem = Some (Ok [("X", 0); ("Y", 1000)]).
Proof.
  split; [ vm_compute; reflexivity | ].
  split; [ vm_compute; reflexivity | ].
  split; [ vm_compute; reflexivity | ].
  split; vm_compute; reflexivity.
Qed.

(** C6 on the program's own arithmetic.  Wallet A's raw score exceeds wallet
    B's, and B is scored 0, but A is scored 999: its rescaled value is
    999.9999999999999 in binary64.  This holds for the double nearest to
    [ln 1001] and for both of its neighbours. *)
Theorem worked_example_scores_999_and_0 :
  Forall (fun L : float =>
            PrimFloat.ltb (Binary64.raw_score (fun _ => L) wallet_B)
                          (Binary64.raw_score (fun _ => L) wallet_A) = true /\
            Binary64.final_scores (map (Binary64.raw_score (fun _ => L)) [wallet_A; wallet_B])
            = Ok [Some 999; Some 0])
         [next_down log1p_1000; log1p_1000; next_up log1p_1000] /\
  map (Binary64.raw_score (fun _ => log1p_1000)) [wallet_A; wallet_B]
  = [0x1.3dc59a620f1b4p+9%float; (-0x1.cd6cc68920bf8p+6)%float] /\
  Binary64.fit_transform 0 1000 [0x1.3dc59a620f1b4p+9%float; (-0x1.cd6cc68920bf8p+6)%float]
  = Ok [0x1.f3fffffffffffp+9%float; 0%float].
Proof.
  split; [ repeat constructor; vm_compute; reflexivity | ].
  split; vm_compute; reflexivity.
Qed.

(** In exact arithmetic the worked example comes out as the spec has it. *)
Lemma engineer_features_example :
  engineer_features store_example = Some [("A", features_A); ("B", features_B)].
Proof. vm_compute; reflexivity. Qed.

Lemma final_scores_pair (a b : Q) :
  (b < a)%Q -> final_scores [a; b] = Ok [1000; 0].
Proof.
  intro H.
  assert (Hmin : (data_min a [b] == b)%Q) by (apply Q.min_l, Qlt_le_weak, H).
  assert (Hmax : (data_max a [b] == a)%Q) by (apply Q.max_r, Qlt_le_weak, H).
  assert (Hne : ~ (data_max a [b] == data_min a [b])%Q) by (rewrite Hmin, Hmax; lra).
  rewrite (final_scores_nondegenerate _ _ Hne); cbn [map]; f_equal; f_equal.
  - transitivity (astype_int 1000); [ | reflexivity ].
    apply astype_int_comp, rescaled_at_max; [ exact Hne | symmetry; exact Hmax ].
  - f_equal.
    transitivity (astype_int 0); [ | reflexivity ].
    apply astype_int_comp, rescaled_at_min; [ exact Hne | symmetry; exact Hmin ].
Qed.

Lemma raw_score_A (log1p : Q -> Q) :
  (raw_score log1p features_A == 601 + log1p 1000%Q * 5)%Q.
Proof.
  unfold raw_score.
  change (row_get (pivot features_A) "sum_deposit" 0 + row_get (pivot features_A) "sum_borrow" 0)%Q
    with 1000%Q.
  change (clip_upper (repayment_ratio features_A - 1) 1) with 1%Q.
  change (clip_upper (ltv_proxy features_A) 2) with (0 # 1001)%Q.
  change (account_age_days features_A) with 10.
  change (liquidation_count features_A) with 0%Q.
  ring.
Qed.

Lemma raw_score_B (log1p : Q -> Q) :
  (raw_score log1p features_B == - (1499 # 10) + log1p 1000%Q * 5)%Q.
Proof.
  unfold raw_score.
  change (row_get (pivot features_B) "sum_deposit" 0 + row_get (pivot features_B) "sum_borrow" 0)%Q
    with 1000%Q.
  change (clip_upper (repayment_ratio features_B - 1) 1) with (-1001 # 1001)%Q.
  change (clip_upper (ltv_proxy features_B) 2) with 2%Q.
  change (account_age_days features_B) with 1.
  change (liquidation_count features_B) with 1%Q.
  ring.
Qed.

(** Whatever value [log1p] takes at 1000, exact arithmetic scores wallet A
    1000 and wallet B 0. *)
Lemma worked_example_exact (log1p : Q -> Q) :
  (raw_score log1p features_B < raw_score log1p features_A)%Q /\
  score_table log1p store_example = Some (Ok [("A", 1000); ("B", 0)]).
Proof.
  assert (H : (raw_score log1p features_B < raw_score log1p features_A)%Q)
    by (rewrite raw_score_A, raw_score_B; lra).
  split; [ exact H | ].
  unfold score_table; rewrite engineer_features_example.
  unfold calculate_scores; cbn [map snd fst].
  rewrite (final_scores_pair _ _ H); reflexivity.
Qed.

(** * Further properties of the pipeline *)

(** ** Loading *)

(** X1.  [load_and_parse_data] returns [True] exactly when the file decodes
    to something iterable all of whose items are well-shaped records: a
    missing file, a file that is not JSON, a value that cannot be iterated
    and a single record of another shape each make it return [False]. *)
Theorem load_succeeds_iff_all_well_shaped :
  forall (to_datetime : json -> result datetime) (f : input_file),
    fst (load_and_parse_data to_datetime f) = true <->
    exists j records,
      f = Content j /\ iter j = Ok records /\
      Forall (fun r => well_shaped to_datetime r = true) records.
Proof.
  intros to_datetime f; split.
  - intro H.
    destruct (load_and_parse_data_returns to_datetime f) as [[df Hdf] | Hno];
      [ | rewrite Hno in H; discriminate H ].
    destruct f as [ | | j ]; try (vm_compute in Hdf; discriminate Hdf).
    apply load_and_parse_data_true in Hdf as [records [Hi Hp]].
    exists j, records; repeat split; try assumption.
    apply parse_records_Forall2 in Hp.
    clear Hi H; induction Hp as [ | r tx records df' Hr _ IH ];
      [ constructor | constructor; [ | exact IH ] ].
    apply parse_record_Ok in Hr as [Hws _]; exact Hws.
  - intros [j [records [-> [Hi Hall]]]].
    destruct (parse_records_well_shaped _ _ Hall) as [df [Hdf _]].
    unfold load_and_parse_data; simpl; rewrite Hi; simpl; rewrite Hdf; reflexivity.
Qed.



(** X3.  A price given as an object is read through its [$numberDecimal]
    entry and then counts exactly like the same value given directly; an
    object without that entry, or with another object inside, gives
    [amountUSD = 0.0]. *)
Theorem nested_price_reads_like_plain :
  forall (amount_str : json) (d : list (string * json)),
    match lookup "$numberDecimal" d with
    | Some (JDict _) => amount_usd amount_str (JDict d) = 0%Q
    | Some v => amount_usd amount_str (JDict d) = amount_usd amount_str v
    | None => amount_usd amount_str (JDict d) = 0%Q
    end.
Proof.
  intros amount_str d.
  unfold amount_usd, amount_usd_try, price_of, getitem.
  destruct (lookup "$numberDecimal" d) as [v | ];
    [ destruct v | ]; destruct (amount_of amount_str); reflexivity.
Qed.





(** ** The feature table *)

Lemma insert_sorted_perm (k : string) (l : list string) :
  Permutation (k :: l) (insert_sorted k l).
Proof.
  induction l as [ | k' l IH ]; simpl; [ apply Permutation_refl | ].
  destruct (String.leb k k'); [ apply Permutation_refl | ].
  eapply perm_trans; [ apply perm_swap | apply perm_skip, IH ].
Qed.

Lemma sort_keys_perm (l : list string) : Permutation l (sort_keys l).
Proof.
  unfold sort_keys; induction l as [ | k l IH ]; simpl; [ constructor | ].
  eapply perm_trans; [ apply perm_skip, IH | apply insert_sorted_perm ].
Qed.

Lemma insert_sorted_Sorted (k : string) (l : list string) :
  Sorted (fun a b => String.leb a b = true) l ->
  Sorted (fun a b => String.leb a b = true) (insert_sorted k l).
Proof.
  induction 1 as [ | k' l Hs IH Hhd ]; simpl.
  - repeat constructor.
  - destruct (String.leb k k') eqn:E.
    + constructor; [ constructor; assumption | constructor; exact E ].
    + assert (Hk : String.leb k' k = true)
        by (destruct (String.leb_total k k') as [H | H]; [ congruence | exact H ]).
      constructor; [ exact IH | ].
      destruct l as [ | k'' l ]; simpl; [ constructor; exact Hk | ].
      destruct (String.leb k k''); constructor; [ exact Hk | ].
      inversion Hhd; assumption.
Qed.

Lemma sort_keys_Sorted (l : list string) :
  Sorted (fun a b => String.leb a b = true) (sort_keys l).
Proof.
  unfold sort_keys; induction l as [ | k l IH ]; simpl;
    [ constructor | apply insert_sorted_Sorted, IH ].
Qed.

Lemma keys_In (w : string) (df : list NormalizedTransaction) (tx : NormalizedTransaction) :
  In tx df -> userAddress tx = JStr w -> In w (keys df).
Proof.
  induction df as [ | tx' df IH ]; simpl; [ tauto | ].
  intros [-> | Hin] Hw.
  - unfold group_key; rewrite Hw; left; reflexivity.
  - destruct (group_key tx'); [ right | ]; apply IH; assumption.
Qed.

Lemma engineer_features_index (df : list NormalizedTransaction)
      (table : list (string * WalletFeatures)) :
  engineer_features df = Some table -> map fst table = wallet_index df.
Proof.
  unfold engineer_features.
  destruct (forallb key_modelled df); [ apply features_of_index_fst | discriminate ].
Qed.

(** X5.  The feature table has exactly one row per wallet address of the
    transaction table, in ascending order of the addresses. *)
Theorem one_feature_row_per_wallet :
  forall (df : list NormalizedTransaction) (table : list (string * WalletFeatures)),
    engineer_features df = Some table ->
    NoDup (map fst table) /\
    Sorted (fun a b => String.leb a b = true) (map fst table) /\
    (forall w, In w (map fst table) <-> exists tx, In tx df /\ userAddress tx = JStr w).
Proof.
  intros df table H.
  rewrite (engineer_features_index _ _ H); unfold wallet_index.
  split; [ | split ].
  - eapply Permutation_NoDup; [ apply sort_keys_perm | apply NoDup_nodup ].
  - apply sort_keys_Sorted.
  - intro w; split.
    + apply In_wallet_index.
    + intros [tx [Hin Hw]].
      apply In_sort_keys, nodup_In; eapply keys_In; eassumption.
Qed.

Lemma one_feature_row_per_wallet_witness :
  NoDup (map fst [("A", features_A); ("B", features_B)]) /\
  Sorted (fun a b => String.leb a b = true) (map fst [("A", features_A); ("B", features_B)]) /\
  (forall w, In w (map fst [("A", features_A); ("B", features_B)])
             <-> exists tx, In tx store_example /\ userAddress tx = JStr w).
Proof.
  apply (one_feature_row_per_wallet store_example).
  vm_compute; reflexivity.
Defined.

Section RowGet.

Variables (prefix : string -> string) (g : string -> Q).
Hypothesis prefix_inj : forall a b, prefix a = prefix b -> a = b.



End RowGet.





Lemma features_of_index_In (df : list NormalizedTransaction) (index : list string) :
  forall table w f,
    features_of_index df index = Some table ->
    In (w, f) table -> wallet_features df w = Some f.
Proof.
  induction index as [ | w' index IH ]; simpl; intros table w f H Hin.
  - injection H as <-; destruct Hin.
  - destruct (wallet_features df w') as [f' | ] eqn:Ew; [ | discriminate ].
    destruct (features_of_index df index) as [rest | ]; [ | discriminate ].
    injection H as <-; destruct Hin as [E | Hin].
    + injection E as <- <-; exact Ew.
    + eapply IH; [ reflexivity | exact Hin ].
Qed.

Lemma engineer_features_In (df : list NormalizedTransaction)
      (table : list (string * WalletFeatures)) (w : string) (f : WalletFeatures) :
  engineer_features df = Some table -> In (w, f) table -> wallet_features df w = Some f.
Proof.
  unfold engineer_features.
  destruct (forallb key_modelled df); [ apply features_of_index_In | discriminate ].
Qed.




(** ** Timestamps *)

Lemma agg_min_NaT (col : list datetime) :
  agg_min col = NaT -> forall t, ~ In (Timestamp t) col.
Proof.
  induction col as [ | x col IH ]; simpl; intros H t; [ tauto | ].
  destruct x as [ | tx ]; simpl in H.
  - intros [E | Hin]; [ discriminate E | exact (IH H t Hin) ].
  - destruct (agg_min col); discriminate H.
Qed.

Lemma agg_max_NaT (col : list datetime) :
  agg_max col = NaT -> forall t, ~ In (Timestamp t) col.
Proof.
  induction col as [ | x col IH ]; simpl; intros H t; [ tauto | ].
  destruct x as [ | tx ]; simpl in H.
  - intros [E | Hin]; [ discriminate E | exact (IH H t Hin) ].
  - destruct (agg_max col); discriminate H.
Qed.

Lemma agg_min_spec (col : list datetime) :
  forall a, agg_min col = Timestamp a ->
    In (Timestamp a) col /\ forall t, In (Timestamp t) col -> a <= t.
Proof.
  induction col as [ | x col IH ]; simpl; intros a H; [ discriminate H | ].
  destruct x as [ | tx ]; simpl in H.
  - destruct (IH a H) as [Hin Hle]; split; [ right; exact Hin | ].
    intros t [E | Ht]; [ discriminate E | apply Hle, Ht ].
  - destruct (agg_min col) as [ | m ] eqn:Em.
    + injection H as <-; split; [ left; reflexivity | ].
      intros t [E | Ht]; [ injection E as <-; lia | ].
      exfalso; exact (agg_min_NaT _ Em t Ht).
    + injection H as <-; destruct (IH m eq_refl) as [Hin Hle]; split.
      * destruct (Z.min_spec tx m) as [[_ ->] | [_ ->]]; [ left; reflexivity | right; exact Hin ].
      * intros t [E | Ht]; [ injection E as <-; lia | ].
        specialize (Hle t Ht); lia.
Qed.

Lemma agg_max_spec (col : list datetime) :
  forall b, agg_max col = Timestamp b ->
    In (Timestamp b) col /\ forall t, In (Timestamp t) col -> t <= b.
Proof.
  induction col as [ | x col IH ]; simpl; intros b H; [ discriminate H | ].
  destruct x as [ | tx ]; simpl in H.
  - destruct (IH b H) as [Hin Hle]; split; [ right; exact Hin | ].
    intros t [E | Ht]; [ discriminate E | apply Hle, Ht ].
  - destruct (agg_max col) as [ | m ] eqn:Em.
    + injection H as <-; split; [ left; reflexivity | ].
      intros t [E | Ht]; [ injection E as <-; lia | ].
      exfalso; exact (agg_max_NaT _ Em t Ht).
    + injection H as <-; destruct (IH m eq_refl) as [Hin Hle]; split.
      * destruct (Z.max_spec tx m) as [[_ ->] | [_ ->]]; [ right; exact Hin | left; reflexivity ].
      * intros t [E | Ht]; [ injection E as <-; lia | ].
        specialize (Hle t Ht); lia.
Qed.

(** X7.  In every feature row [first_tx] and [last_tx] are the earliest and
    the latest timestamp of the wallet's rows, and [account_age_days] is the
    number of whole days between them: never negative, fractions of a day
    dropped. *)
Theorem account_age_is_whole_days :
  forall (df : list NormalizedTransaction) (table : list (string * WalletFeatures))
         (w : string) (f : WalletFeatures),
    engineer_features df = Some table ->
    In (w, f) table ->
    (forall tx t, In tx df -> userAddress tx = JStr w -> timestamp tx = Timestamp t ->
                  first_tx f <= t <= last_tx f) /\
    (exists tx, In tx df /\ userAddress tx = JStr w /\ timestamp tx = Timestamp (first_tx f)) /\
    (exists tx, In tx df /\ userAddress tx = JStr w /\ timestamp tx = Timestamp (last_tx f)) /\
    0 <= account_age_days f /\
    account_age_days f * ns_per_day <= last_tx f - first_tx f
    < (account_age_days f + 1) * ns_per_day.
Proof.
  intros df table w f H Hin.
  pose proof (engineer_features_In _ _ _ _ H Hin) as Hf.
  unfold wallet_features in Hf.
  destruct (agg_min _) as [ | first ] eqn:Emin; [ discriminate | ].
  destruct (agg_max _) as [ | last ] eqn:Emax; [ discriminate | ].
  destruct (repayment_ratio_of _ _); [ | discriminate ].
  destruct (ltv_proxy_of _ _); [ | discriminate ].
  injection Hf as <-; simpl.
  destruct (agg_min_spec _ _ Emin) as [Hmin_in Hmin].
  destruct (agg_max_spec _ _ Emax) as [Hmax_in Hmax].
  assert (Hrow : forall t, In (Timestamp t) (map timestamp (rows_of df w)) ->
                           exists tx, In tx df /\ userAddress tx = JStr w
                                      /\ timestamp tx = Timestamp t).
  { intros t Ht; apply in_map_iff in Ht as [tx [Et Htx]].
    unfold rows_of in Htx; apply filter_In in Htx as [Htx Hk].
    exists tx; repeat split; try assumption.
    unfold has_key, group_key in Hk.
    destruct (userAddress tx); try discriminate Hk.
    apply String.eqb_eq in Hk; subst; reflexivity. }
  assert (Hle : first <= last) by (apply Hmin; exact Hmax_in).
  split; [ | split; [ | split; [ | split ] ] ].
  - intros tx t Htx Hw Ht.
    assert (Hcol : In (Timestamp t) (map timestamp (rows_of df w))).
    { rewrite <- Ht; apply in_map; unfold rows_of; apply filter_In; split; [ exact Htx | ].
      unfold has_key, group_key; rewrite Hw; apply String.eqb_refl. }
    split; [ apply Hmin | apply Hmax ]; exact Hcol.
  - apply Hrow, Hmin_in.
  - apply Hrow, Hmax_in.
  - unfold days_between, ns_per_day; apply Z.div_pos; lia.
  - unfold days_between, ns_per_day.
    pose proof (Z.div_mod (last - first) (86400 * 1000000000) ltac:(lia)) as Hd.
    pose proof (Z.mod_pos_bound (last - first) (86400 * 1000000000) ltac:(lia)) as Hm.
    lia.
Qed.

Lemma account_age_is_whole_days_witness :
  (forall tx t, In tx store_example -> userAddress tx = JStr "A" -> timestamp tx = Timestamp t ->
                first_tx features_A <= t <= last_tx features_A) /\
  (exists tx, In tx store_example /\ userAddress tx = JStr "A"
              /\ timestamp tx = Timestamp (first_tx features_A)) /\
  (exists tx, In tx store_example /\ userAddress tx = JStr "A"
              /\ timestamp tx = Timestamp (last_tx features_A)) /\
  0 <= account_age_days features_A /\
  account_age_days features_A * ns_per_day <= last_tx features_A - first_tx features_A
  < (account_age_days features_A + 1) * ns_per_day.
Proof.
  apply (account_age_is_whole_days store_example [("A", features_A); ("B", features_B)]).
  - vm_compute; reflexivity.
  - left; reflexivity.
Defined.

(** ** Order of the rows *)




















(** ** The raw score, feature by feature *)

(** X9.  The repayment ratio and the leverage count up to 2 and no further:
    a repayment ratio above 2 earns what 2 earns, which is the most any
    ratio earns, and a leverage above 2 costs what 2 costs, which is the
    most any leverage costs. *)
Theorem ratio_and_leverage_saturate_at_2 :
  forall (log1p : Q -> Q) (f : WalletFeatures) (r l : Q),
    (raw_score log1p (with_repayment_ratio f r)
     <= raw_score log1p (with_repayment_ratio f 2))%Q /\
    ((2 <= r)%Q ->
     (raw_score log1p (with_repayment_ratio f r)
      == raw_score log1p (with_repayment_ratio f 2))%Q) /\
    (raw_score log1p (with_ltv_proxy f 2) <= raw_score log1p (with_ltv_proxy f l))%Q /\
    ((2 <= l)%Q ->
     (raw_score log1p (with_ltv_proxy f l) == raw_score log1p (with_ltv_proxy f 2))%Q).
Proof.
  intros log1p f r l; unfold raw_score, with_repayment_ratio, with_ltv_proxy, clip_upper; simpl.
  assert (Hr1 : (Qmin (r - 1) 1 <= 1)%Q) by apply Q.le_min_r.
  assert (Hr2 : (Qmin (2 - 1) 1 == 1)%Q) by reflexivity.
  assert (Hl1 : (Qmin l 2 <= 2)%Q) by apply Q.le_min_r.
  assert (Hl2 : (Qmin 2 2 == 2)%Q) by reflexivity.
  split; [ rewrite Hr2; lra | ].
  split; [ intro H; rewrite Hr2, (Q.min_r (r - 1) 1) by lra; reflexivity | ].
  split; [ rewrite Hl2; lra | ].
  intro H; rewrite Hl2, (Q.min_r l 2) by lra; reflexivity.
Qed.


(** ** The score table *)






(** ** What the rescaling forgets *)










(** ** The histogram and the whole run *)

Lemma bin_counts_step (lo hi : Z) (rest x : list Z) :
  bin_counts (lo :: hi :: rest) x
  = List.length (filter (fun u => (lo <=? u)
                                  && match rest with [] => u <=? hi | _ => u <? hi end) x)
    :: bin_counts (hi :: rest) x.
Proof. reflexivity. Qed.

Lemma total_cons (n : nat) (counts : list nat) :
  total (n :: counts) = (n + total counts)%nat.
Proof. reflexivity. Qed.

Lemma bin_counts_cons (edges : list Z) (v : Z) (x : list Z) :
  total (bin_counts edges (v :: x))
  = (total (bin_counts edges [v]) + total (bin_counts edges x))%nat.
Proof.
  induction edges as [ | lo edges IH ]; [ reflexivity | ].
  destruct edges as [ | hi rest ]; [ reflexivity | ].
  rewrite !bin_counts_step, !total_cons, IH; cbn [filter].
  destruct ((lo <=? v) && match rest with [] => v <=? hi | _ => v <? hi end);
    cbn [List.length]; lia.
Qed.

Lemma bin_counts_length (edges : list Z) (x : list Z) :
  List.length (bin_counts edges x) = Nat.pred (List.length edges).
Proof.
  induction edges as [ | lo edges IH ]; [ reflexivity | ].
  destruct edges as [ | hi rest ]; [ reflexivity | ].
  rewrite bin_counts_step; cbn [List.length] in *; rewrite IH; reflexivity.
Qed.

Lemma score_bins : py_range 0 1001 100 = [0; 100; 200; 300; 400; 500; 600; 700; 800; 900; 1000].
Proof. reflexivity. Qed.

Lemma score_bins_singleton (v : Z) :
  total (bin_counts (py_range 0 1001 100) [v])
  = if (0 <=? v) && (v <=? 1000) then 1%nat else 0%nat.
Proof.
  rewrite score_bins; cbn [bin_counts filter].
  repeat match goal with
         | |- context [?a <=? ?b] => destruct (Z.leb_spec a b); try lia
         | |- context [?a <? ?b] => destruct (Z.ltb_spec a b); try lia
         end; reflexivity.
Qed.

Lemma score_bins_total (x : list Z) :
  total (bin_counts (py_range 0 1001 100) x)
  = List.length (filter (fun v => (0 <=? v) && (v <=? 1000)) x).
Proof.
  induction x as [ | v x IH ].
  - rewrite score_bins; reflexivity.
  - rewrite bin_counts_cons, IH, score_bins_singleton; cbn [filter].
    destruct ((0 <=? v) && (v <=? 1000)); reflexivity.
Qed.

(** X13.  The histogram of [save_results] has ten bars, and together they
    count exactly the scores between 0 and 1000, bounds included, each once;
    a score outside that range is left out of the picture. *)
Theorem histogram_counts_scores_in_range :
  forall wallet_scores : list (string * Z),
    List.length (score_distribution (save_results wallet_scores)) = 10%nat /\
    total (score_distribution (save_results wallet_scores))
    = List.length (filter (fun v => (0 <=? v) && (v <=? 1000)) (map snd wallet_scores)) /\
    (Forall (fun ws => 0 <= snd ws <= 1000) wallet_scores ->
     total (score_distribution (save_results wallet_scores)) = List.length wallet_scores).
Proof.
  intro wallet_scores; unfold save_results; cbn [score_distribution].
  split; [ rewrite bin_counts_length, score_bins; reflexivity | ].
  split; [ apply score_bins_total | ].
  intro Hall; rewrite score_bins_total.
  induction Hall as [ | ws l Hws _ IH ]; [ reflexivity | ].
  cbn [map filter].
  replace ((0 <=? snd ws) && (snd ws <=? 1000)) with true
    by (symmetry; apply andb_true_intro; split; apply Z.leb_le; lia).
  cbn [List.length]; rewrite IH; reflexivity.
Qed.







(** ** Tables without negative amounts *)





(** ** What the file may hold *)

Lemma load_content_true (to_datetime : json -> result datetime) (j : json) :
  fst (load_and_parse_data to_datetime (Content j)) = true <->
  exists records,
    iter j = Ok records /\ Forall (fun r => well_shaped to_datetime r = true) records.
Proof.
  split.
  - intro H.
    destruct (load_and_parse_data_returns to_datetime (Content j)) as [[df Hdf] | Hno];
      [ | rewrite Hno in H; discriminate H ].
    apply load_and_parse_data_true in Hdf as [records [Hi Hp]].
    exists records; split; [ exact Hi | ].
    apply parse_records_Forall2 in Hp.
    clear Hi H; induction Hp as [ | r tx records df' Hr _ IH ];
      [ constructor | constructor; [ | exact IH ] ].
    apply parse_record_Ok in Hr as [Hws _]; exact Hws.
  - intros [records [Hi Hall]].
    destruct (parse_records_well_shaped _ _ Hall) as [df [Hdf _]].
    unfold load_and_parse_data; simpl; rewrite Hi; simpl; rewrite Hdf; reflexivity.
Qed.

(** X16.  The decoded file is accepted exactly when it is a list of
    well-shaped records, an empty object or an empty string; the last two
    load as an empty table.  A non-empty object or string, a number, a
    boolean or [null] makes the load return [False]. *)
Theorem accepted_files :
  forall (to_datetime : json -> result datetime) (j : json),
    (fst (load_and_parse_data to_datetime (Content j)) = true <->
     match j with
     | JList records => Forall (fun r => well_shaped to_datetime r = true) records
     | JDict d => d = []
     | JStr s => s = EmptyString
     | _ => False
     end) /\
    load_and_parse_data to_datetime (Content (JDict [])) = (true, Some []) /\
    load_and_parse_data to_datetime (Content (JStr EmptyString)) = (true, Some []).
Proof.
  intros to_datetime j; split; [ | split; reflexivity ].
  rewrite load_content_true; split.
  - intros [records [Hi Hall]].
    destruct j as [ | b | q | s | l | d ]; simpl in Hi; try discriminate Hi;
      injection Hi as <-.
    + destruct s as [ | c s ]; [ reflexivity | ].
      simpl in Hall; inversion Hall as [ | ? ? Hws _ ]; discriminate Hws.
    + exact Hall.
    + destruct d as [ | [k v] d ]; [ reflexivity | ].
      simpl in Hall; inversion Hall as [ | ? ? Hws _ ]; discriminate Hws.
  - destruct j as [ | b | q | s | l | d ]; intro H; try contradiction.
    + subst s; exists []; split; [ reflexivity | constructor ].
    + exists l; split; [ reflexivity | exact H ].
    + subst d; exists []; split; [ reflexivity | constructor ].
Qed.
